(** * nfstest: protocol constant tables and the codec that consumes them

    The two generated constant modules of the repository,
    [packet/application/rpcordma_const.py] and [packet/nfs/nlm4_const.py],
    are embedded as they are written: every module-level integer constant
    is a [Z], every code-to-name dictionary is a finite map from [Z] to
    [string] built from the dictionary display in source order.

    The decoding engine that reads those tables (table registry, XDR codec,
    enum resolution, RDMA proc dispatch) is not among the source files; it
    is modelled from the specification in the second half of the file. *)

From Stdlib Require Import ZArith Lia List.
From Stdlib Require Import Strings.Byte Strings.Ascii.
From stdpp Require Import gmap strings list fin_maps pretty sorting.

Local Open Scope string_scope.
Local Open Scope Z_scope.
Local Open Scope list_scope.

(** ** Python dictionary displays *)

(** A dictionary display [{k1 : v1, k2 : v2, ...}] evaluates its items
    left to right and stores each one in turn, so a later item with an
    equal key replaces an earlier one. *)
Definition dict_display (items : list (Z * string)) : gmap Z string :=
  foldl (fun d kv => <[kv.1 := kv.2]> d) ∅ items.

(** A block of module-level assignments [NAME = n], in source order. *)
Abbreviation enum_block := (list (string * Z)).

(** ** packet/application/rpcordma_const.py *)

Module rpcordma_const.

(* Enum rpc_rdma_errcode *)
Definition ERR_VERS  : Z := 1.  (* Value fixed for all versions *)
Definition ERR_CHUNK : Z := 2.

Definition rpc_rdma_errcode_items : list (Z * string) :=
  [ (1, "ERR_VERS");
    (2, "ERR_CHUNK") ].

Definition rpc_rdma_errcode : gmap Z string :=
  dict_display rpc_rdma_errcode_items.

(* Enum rdma_proc *)
Definition RDMA_MSG   : Z := 0.  (* Value fixed for all versions *)
Definition RDMA_NOMSG : Z := 1.  (* Value fixed for all versions *)
Definition RDMA_MSGP  : Z := 2.  (* Not to be used *)
Definition RDMA_DONE  : Z := 3.  (* Not to be used *)
Definition RDMA_ERROR : Z := 4.  (* Value fixed for all versions *)

Definition rdma_proc_items : list (Z * string) :=
  [ (0, "RDMA_MSG");
    (1, "RDMA_NOMSG");
    (2, "RDMA_MSGP");
    (3, "RDMA_DONE");
    (4, "RDMA_ERROR") ].

Definition rdma_proc : gmap Z string :=
  dict_display rdma_proc_items.

(** The assignment blocks under the [# Enum ...] headings. *)
Definition rpc_rdma_errcode_consts : enum_block :=
  [ ("ERR_VERS", ERR_VERS);
    ("ERR_CHUNK", ERR_CHUNK) ].

Definition rdma_proc_consts : enum_block :=
  [ ("RDMA_MSG", RDMA_MSG);
    ("RDMA_NOMSG", RDMA_NOMSG);
    ("RDMA_MSGP", RDMA_MSGP);
    ("RDMA_DONE", RDMA_DONE);
    ("RDMA_ERROR", RDMA_ERROR) ].

End rpcordma_const.

(** ** packet/nfs/nlm4_const.py *)

Module nlm4_const.

(* Enum nfs_bool *)
Definition FALSE : Z := 0.
Definition TRUE  : Z := 1.

Definition nfs_bool_items : list (Z * string) :=
  [ (0, "FALSE");
    (1, "TRUE") ].

Definition nfs_bool : gmap Z string := dict_display nfs_bool_items.

(* Sizes *)
Definition LM_MAXSTRLEN : Z := 1024.
Definition MAXNAMELEN   : Z := 1025.  (* LM_MAXSTRLEN + 1 *)
Definition MAXNETOBJ_SZ : Z := 1024.

(* Enum nlm4_stats *)
Definition NLM4_GRANTED             : Z := 0.
Definition NLM4_DENIED              : Z := 1.
Definition NLM4_DENIED_NOLOCKS      : Z := 2.
Definition NLM4_BLOCKED             : Z := 3.
Definition NLM4_DENIED_GRACE_PERIOD : Z := 4.
Definition NLM4_DEADLCK             : Z := 5.
Definition NLM4_ROFS                : Z := 6.
Definition NLM4_STALE_FH            : Z := 7.
Definition NLM4_FBIG                : Z := 8.
Definition NLM4_FAILED              : Z := 9.

Definition nlm4_stats_items : list (Z * string) :=
  [ (0, "NLM4_GRANTED");
    (1, "NLM4_DENIED");
    (2, "NLM4_DENIED_NOLOCKS");
    (3, "NLM4_BLOCKED");
    (4, "NLM4_DENIED_GRACE_PERIOD");
    (5, "NLM4_DEADLCK");
    (6, "NLM4_ROFS");
    (7, "NLM4_STALE_FH");
    (8, "NLM4_FBIG");
    (9, "NLM4_FAILED") ].

Definition nlm4_stats : gmap Z string := dict_display nlm4_stats_items.

(* Enum fsh4_mode *)
Definition fsm_DN  : Z := 0.
Definition fsm_DR  : Z := 1.
Definition fsm_DW  : Z := 2.
Definition fsm_DRW : Z := 3.

Definition fsh4_mode_items : list (Z * string) :=
  [ (0, "fsm_DN");
    (1, "fsm_DR");
    (2, "fsm_DW");
    (3, "fsm_DRW") ].

Definition fsh4_mode : gmap Z string := dict_display fsh4_mode_items.

(* Enum fsh4_access *)
Definition fsa_NONE : Z := 0.
Definition fsa_R    : Z := 1.
Definition fsa_W    : Z := 2.
Definition fsa_RW   : Z := 3.

Definition fsh4_access_items : list (Z * string) :=
  [ (0, "fsa_NONE");
    (1, "fsa_R");
    (2, "fsa_W");
    (3, "fsa_RW") ].

Definition fsh4_access : gmap Z string := dict_display fsh4_access_items.

(* Enum nlm_proc4 *)
Definition NLMPROC4_NULL        : Z := 0.
Definition NLMPROC4_TEST        : Z := 1.
Definition NLMPROC4_LOCK        : Z := 2.
Definition NLMPROC4_CANCEL      : Z := 3.
Definition NLMPROC4_UNLOCK      : Z := 4.
Definition NLMPROC4_GRANTED     : Z := 5.
Definition NLMPROC4_TEST_MSG    : Z := 6.
Definition NLMPROC4_LOCK_MSG    : Z := 7.
Definition NLMPROC4_CANCEL_MSG  : Z := 8.
Definition NLMPROC4_UNLOCK_MSG  : Z := 9.
Definition NLMPROC4_GRANTED_MSG : Z := 10.
Definition NLMPROC4_TEST_RES    : Z := 11.
Definition NLMPROC4_LOCK_RES    : Z := 12.
Definition NLMPROC4_CANCEL_RES  : Z := 13.
Definition NLMPROC4_UNLOCK_RES  : Z := 14.
Definition NLMPROC4_GRANTED_RES : Z := 15.
Definition NLMPROC4_SHARE       : Z := 20.
Definition NLMPROC4_UNSHARE     : Z := 21.
Definition NLMPROC4_NM_LOCK     : Z := 22.
Definition NLMPROC4_FREE_ALL    : Z := 23.

Definition nlm_proc4_items : list (Z * string) :=
  [ ( 0, "NLMPROC4_NULL");
    ( 1, "NLMPROC4_TEST");
    ( 2, "NLMPROC4_LOCK");
    ( 3, "NLMPROC4_CANCEL");
    ( 4, "NLMPROC4_UNLOCK");
    ( 5, "NLMPROC4_GRANTED");
    ( 6, "NLMPROC4_TEST_MSG");
    ( 7, "NLMPROC4_LOCK_MSG");
    ( 8, "NLMPROC4_CANCEL_MSG");
    ( 9, "NLMPROC4_UNLOCK_MSG");
    (10, "NLMPROC4_GRANTED_MSG");
    (11, "NLMPROC4_TEST_RES");
    (12, "NLMPROC4_LOCK_RES");
    (13, "NLMPROC4_CANCEL_RES");
    (14, "NLMPROC4_UNLOCK_RES");
    (15, "NLMPROC4_GRANTED_RES");
    (20, "NLMPROC4_SHARE");
    (21, "NLMPROC4_UNSHARE");
    (22, "NLMPROC4_NM_LOCK");
    (23, "NLMPROC4_FREE_ALL") ].

Definition nlm_proc4 : gmap Z string := dict_display nlm_proc4_items.

(** The assignment blocks under the [# Enum ...] headings. *)
Definition nfs_bool_consts : enum_block :=
  [ ("FALSE", FALSE); ("TRUE", TRUE) ].

Definition nlm4_stats_consts : enum_block :=
  [ ("NLM4_GRANTED", NLM4_GRANTED);
    ("NLM4_DENIED", NLM4_DENIED);
    ("NLM4_DENIED_NOLOCKS", NLM4_DENIED_NOLOCKS);
    ("NLM4_BLOCKED", NLM4_BLOCKED);
    ("NLM4_DENIED_GRACE_PERIOD", NLM4_DENIED_GRACE_PERIOD);
    ("NLM4_DEADLCK", NLM4_DEADLCK);
    ("NLM4_ROFS", NLM4_ROFS);
    ("NLM4_STALE_FH", NLM4_STALE_FH);
    ("NLM4_FBIG", NLM4_FBIG);
    ("NLM4_FAILED", NLM4_FAILED) ].

Definition fsh4_mode_consts : enum_block :=
  [ ("fsm_DN", fsm_DN); ("fsm_DR", fsm_DR);
    ("fsm_DW", fsm_DW); ("fsm_DRW", fsm_DRW) ].

Definition fsh4_access_consts : enum_block :=
  [ ("fsa_NONE", fsa_NONE); ("fsa_R", fsa_R);
    ("fsa_W", fsa_W); ("fsa_RW", fsa_RW) ].

Definition nlm_proc4_consts : enum_block :=
  [ ("NLMPROC4_NULL", NLMPROC4_NULL);
    ("NLMPROC4_TEST", NLMPROC4_TEST);
    ("NLMPROC4_LOCK", NLMPROC4_LOCK);
    ("NLMPROC4_CANCEL", NLMPROC4_CANCEL);
    ("NLMPROC4_UNLOCK", NLMPROC4_UNLOCK);
    ("NLMPROC4_GRANTED", NLMPROC4_GRANTED);
    ("NLMPROC4_TEST_MSG", NLMPROC4_TEST_MSG);
    ("NLMPROC4_LOCK_MSG", NLMPROC4_LOCK_MSG);
    ("NLMPROC4_CANCEL_MSG", NLMPROC4_CANCEL_MSG);
    ("NLMPROC4_UNLOCK_MSG", NLMPROC4_UNLOCK_MSG);
    ("NLMPROC4_GRANTED_MSG", NLMPROC4_GRANTED_MSG);
    ("NLMPROC4_TEST_RES", NLMPROC4_TEST_RES);
    ("NLMPROC4_LOCK_RES", NLMPROC4_LOCK_RES);
    ("NLMPROC4_CANCEL_RES", NLMPROC4_CANCEL_RES);
    ("NLMPROC4_UNLOCK_RES", NLMPROC4_UNLOCK_RES);
    ("NLMPROC4_GRANTED_RES", NLMPROC4_GRANTED_RES);
    ("NLMPROC4_SHARE", NLMPROC4_SHARE);
    ("NLMPROC4_UNSHARE", NLMPROC4_UNSHARE);
    ("NLMPROC4_NM_LOCK", NLMPROC4_NM_LOCK);
    ("NLMPROC4_FREE_ALL", NLMPROC4_FREE_ALL) ].

End nlm4_const.

(** ** The seven code-to-name tables *)

Inductive table_id :=
| T_rpc_rdma_errcode | T_rdma_proc
| T_nfs_bool | T_nlm4_stats | T_fsh4_mode | T_fsh4_access | T_nlm_proc4.

(** The dictionary display of each table, as written in the source. *)
Definition table_items (t : table_id) : list (Z * string) :=
  match t with
  | T_rpc_rdma_errcode => rpcordma_const.rpc_rdma_errcode_items
  | T_rdma_proc => rpcordma_const.rdma_proc_items
  | T_nfs_bool => nlm4_const.nfs_bool_items
  | T_nlm4_stats => nlm4_const.nlm4_stats_items
  | T_fsh4_mode => nlm4_const.fsh4_mode_items
  | T_fsh4_access => nlm4_const.fsh4_access_items
  | T_nlm_proc4 => nlm4_const.nlm_proc4_items
  end.

(** The dictionary object each module-level name is bound to. *)
Definition table_of (t : table_id) : gmap Z string :=
  match t with
  | T_rpc_rdma_errcode => rpcordma_const.rpc_rdma_errcode
  | T_rdma_proc => rpcordma_const.rdma_proc
  | T_nfs_bool => nlm4_const.nfs_bool
  | T_nlm4_stats => nlm4_const.nlm4_stats
  | T_fsh4_mode => nlm4_const.fsh4_mode
  | T_fsh4_access => nlm4_const.fsh4_access
  | T_nlm_proc4 => nlm4_const.nlm_proc4
  end.

(** The block of constant assignments that precedes each table. *)
Definition table_consts (t : table_id) : enum_block :=
  match t with
  | T_rpc_rdma_errcode => rpcordma_const.rpc_rdma_errcode_consts
  | T_rdma_proc => rpcordma_const.rdma_proc_consts
  | T_nfs_bool => nlm4_const.nfs_bool_consts
  | T_nlm4_stats => nlm4_const.nlm4_stats_consts
  | T_fsh4_mode => nlm4_const.fsh4_mode_consts
  | T_fsh4_access => nlm4_const.fsh4_access_consts
  | T_nlm_proc4 => nlm4_const.nlm_proc4_consts
  end.

Module constant_tables.

(** Modelled from the spec: the Constant Tables interface
    [lookup(protocol, code) -> symbolic_name | None] is not in the source
    files.  The registry is keyed by the table a decoder consults and is
    read-only; a lookup reads the dictionary that the constant module
    binds to that name. *)
Definition lookup (protocol : table_id) (code : Z) : option string :=
  table_of protocol !! code.

End constant_tables.

(** Search of a table by symbolic name: the first code, in the order of the
    table's entries, whose name is [name]. *)
Definition reverse_lookup (t : table_id) (name : string) : option Z :=
  (λ r : nat * (Z * string), r.2.1)
    <$> list_find (λ kv : Z * string, kv.2 = name) (map_to_list (table_of t)).

(** * The decoding engine, modelled from the specification *)

(** Modelled from the spec: the error kinds of section 7; the engine's
    error channel is not in the source files. *)
Inductive error :=
| TruncatedData
| MalformedEncoding
| LengthExceeded
| UnknownUnionArm
| UnknownEnumValue
| ProtocolViolation.

(** Modelled from the spec: decode failures are returned as typed errors,
    never raised. *)
Inductive result (A : Type) :=
| Ok (a : A)
| Err (e : error).
Arguments Ok {A} a.
Arguments Err {A} e.

Definition bind {A B} (m : result A) (k : A → result B) : result B :=
  match m with
  | Ok a => k a
  | Err e => Err e
  end.

Notation "'let*' x ':=' m 'in' k" := (bind m (λ x, k))
  (at level 10, x name, m at level 100, k at level 200,
   format "'[v' 'let*'  x  :=  m  'in'  '/' k ']'").
Notation "'let*' ' pat ':=' m 'in' k" :=
  (bind m (λ x, match x with pat => k end))
  (at level 10, pat pattern, m at level 100, k at level 200,
   format "'[v' 'let*'  ' pat  :=  m  'in'  '/' k ']'").

Module xdr.

(** The XDR Codec of section 4.1 is not in the source files; this module
    models it from the spec.  The spec fixes big-endian integers, a 32-bit
    length before opaque and string data, zero padding to a 4-byte boundary
    that decoding verifies, the order of a union (discriminant, then the
    arm registered for it, else the default arm, else [UnknownUnionArm])
    and the error kinds.  Where it is silent the layout is the one of the
    XDR standard it names: a boolean and the presence flag of an optional
    value are 4-byte integers read as true when not zero, an array of
    variable length carries a 32-bit element count, and a union
    discriminant is a signed 32-bit integer. *)

#[local] Set Warnings "-register-all".

(** Modelled from the spec: the Type Descriptor of section 3, missing from
    the source files: primitive kind, fixed or variable length, element
    type of an array, discriminant-to-arm mapping and default arm of a
    union, optional presence.  [TVarOpaque] describes opaque and string
    fields alike; [max] is the protocol-declared maximum. *)
Inductive type_descriptor :=
| TUInt32
| TInt32
| TUInt64
| TInt64
| TBool
| TFixedOpaque (n : nat)
| TVarOpaque (max : Z)
| TFixedArray (n : nat) (elem : type_descriptor)
| TVarArray (max : Z) (elem : type_descriptor)
| TRecord (fields : list (string * type_descriptor))
| TUnion (arms : list (Z * type_descriptor))
         (default : option type_descriptor)
| TOptional (elem : type_descriptor).

(** Modelled from the spec: the values of a Decoded Record (section 3),
    missing from the source files: integer, boolean, opaque bytes, nested
    record, ordered sequence, the taken arm of a union, and an optional
    value. *)
Inductive value :=
| VInt (n : Z)
| VBool (b : bool)
| VOpaque (data : list byte)
| VSeq (items : list value)
| VRecord (fields : list (string * value))
| VUnion (disc : Z) (arm : value)
| VOptional (o : option value).

(** *** Bytes and big-endian integers *)

Definition byte_to_Z (b : byte) : Z := Z.of_N (Byte.to_N b).

Definition byte_of_Z (z : Z) : byte :=
  default x00 (Byte.of_N (Z.to_N (z mod 256))).

(** The [n] low-order bytes of [z], most significant first. *)
Fixpoint Z_to_be (n : nat) (z : Z) : list byte :=
  match n with
  | O => []
  | S n' => Z_to_be n' (z / 256) ++ [byte_of_Z z]
  end.

Definition be_to_Z (bs : list byte) : Z :=
  foldl (λ acc b, acc * 256 + byte_to_Z b) 0 bs.

(** Number of zero bytes after [n] bytes of data. *)
Definition pad_len (n : nat) : nat := ((4 - n mod 4) mod 4)%nat.

Definition is_zero (b : byte) : bool :=
  match b with x00 => true | _ => false end.

(** *** Reading at a cursor *)

(** Modelled from the spec: reading past the end of the available bytes
    fails with [TruncatedData]. *)
Definition read_bytes (bytes : list byte) (cursor n : nat)
  : result (list byte * nat) :=
  if decide (cursor + n ≤ length bytes)%nat
  then Ok (take n (drop cursor bytes), (cursor + n)%nat)
  else Err TruncatedData.

Definition read_uint (width : nat) (bytes : list byte) (cursor : nat)
  : result (Z * nat) :=
  let* '(bs, c) := read_bytes bytes cursor width in
  Ok (be_to_Z bs, c).

Definition to_signed (width : nat) (u : Z) : Z :=
  if u <? 2 ^ (8 * Z.of_nat width - 1) then u
  else u - 2 ^ (8 * Z.of_nat width).

Definition read_int (width : nat) (bytes : list byte) (cursor : nat)
  : result (Z * nat) :=
  let* '(u, c) := read_uint width bytes cursor in
  Ok (to_signed width u, c).

(** Modelled from the spec: [n] bytes of data followed by padding to a
    4-byte boundary; a padding byte that is not zero is a
    [MalformedEncoding]. *)
Definition read_padded (bytes : list byte) (cursor n : nat)
  : result (list byte * nat) :=
  let* '(data, c1) := read_bytes bytes cursor n in
  let* '(padding, c2) := read_bytes bytes c1 (pad_len n) in
  if forallb is_zero padding then Ok (data, c2)
  else Err MalformedEncoding.

(** *** Sequences, records and union arms *)

Fixpoint decode_items (dec_elem : nat → result (value * nat))
  (n : nat) (cursor : nat) : result (list value * nat) :=
  match n with
  | O => Ok ([], cursor)
  | S n' =>
      let* '(v, c1) := dec_elem cursor in
      let* '(vs, c2) := decode_items dec_elem n' c1 in
      Ok (v :: vs, c2)
  end.

Section fields.
Context (dec : type_descriptor → nat → result (value * nat)).
Context (enc : value → type_descriptor → list byte).
Context (ok : type_descriptor → value → bool).

(** Fields are decoded in declared order. *)
Fixpoint decode_fields (fields : list (string * type_descriptor))
  (cursor : nat) : result (list (string * value) * nat) :=
  match fields with
  | [] => Ok ([], cursor)
  | (name, t) :: fields' =>
      let* '(v, c1) := dec t cursor in
      let* '(vs, c2) := decode_fields fields' c1 in
      Ok ((name, v) :: vs, c2)
  end.

Fixpoint encode_fields (fields : list (string * type_descriptor))
  (vs : list (string * value)) : list byte :=
  match fields, vs with
  | (_, t) :: fields', (_, v) :: vs' => enc v t ++ encode_fields fields' vs'
  | _, _ => []
  end.

Fixpoint valid_fields (fields : list (string * type_descriptor))
  (vs : list (string * value)) : bool :=
  match fields, vs with
  | [], [] => true
  | (name, t) :: fields', (name', v) :: vs' =>
      bool_decide (name = name') && ok t v && valid_fields fields' vs'
  | _, _ => false
  end.
End fields.

Section arms.
Context {A : Type} (on_arm : type_descriptor → A) (no_arm : A).
Context (default : option type_descriptor) (disc : Z).

(** Dispatch on a discriminant: the arm registered for it, else the
    default arm when the descriptor declares one. *)
Fixpoint with_arm (arms : list (Z * type_descriptor)) : A :=
  match arms with
  | (d, t) :: arms' => if d =? disc then on_arm t else with_arm arms'
  | [] =>
      match default with
      | Some t => on_arm t
      | None => no_arm
      end
  end.
End arms.

(** *** decode(bytes, cursor, type_descriptor) -> (value, new_cursor) *)

(** Modelled from the spec: [decode] of the XDR Codec, missing from the
    source files.  A declared length above the protocol maximum is a
    [LengthExceeded], found before the data is read; an unregistered
    discriminant without a default arm is an [UnknownUnionArm]. *)
Fixpoint decode(bytes : list byte) (cursor : nat) (ty : type_descriptor)
  {struct ty} : result (value * nat) :=
  match ty with
  | TUInt32 => let* '(n, c) := read_uint 4 bytes cursor in Ok (VInt n, c)
  | TInt32 => let* '(n, c) := read_int 4 bytes cursor in Ok (VInt n, c)
  | TUInt64 => let* '(n, c) := read_uint 8 bytes cursor in Ok (VInt n, c)
  | TInt64 => let* '(n, c) := read_int 8 bytes cursor in Ok (VInt n, c)
  | TBool =>
      let* '(n, c) := read_uint 4 bytes cursor in
      Ok (VBool (negb (n =? 0)), c)
  | TFixedOpaque n =>
      let* '(data, c) := read_padded bytes cursor n in
      Ok (VOpaque data, c)
  | TVarOpaque max =>
      let* '(len, c1) := read_uint 4 bytes cursor in
      if max <? len then Err LengthExceeded
      else
        let* '(data, c2) := read_padded bytes c1 (Z.to_nat len) in
        Ok (VOpaque data, c2)
  | TFixedArray n elem =>
      let* '(vs, c) := decode_items (λ c, decode bytes c elem) n cursor in
      Ok (VSeq vs, c)
  | TVarArray max elem =>
      let* '(len, c1) := read_uint 4 bytes cursor in
      if max <? len then Err LengthExceeded
      else
        let* '(vs, c2) :=
          decode_items (λ c, decode bytes c elem) (Z.to_nat len) c1 in
        Ok (VSeq vs, c2)
  | TRecord fields =>
      let* '(vs, c) :=
        decode_fields (λ t c, decode bytes c t) fields cursor in
      Ok (VRecord vs, c)
  | TUnion arms default =>
      let* '(disc, c1) := read_int 4 bytes cursor in
      with_arm
        (λ t, let* '(v, c2) := decode bytes c1 t in Ok (VUnion disc v, c2))
        (Err UnknownUnionArm) default disc arms
  | TOptional elem =>
      let* '(flag, c1) := read_uint 4 bytes cursor in
      if flag =? 0 then Ok (VOptional None, c1)
      else
        let* '(v, c2) := decode bytes c1 elem in
        Ok (VOptional (Some v), c2)
  end.

(** *** encode(value, type_descriptor) -> bytes *)

Definition padding (n : nat) : list byte := replicate (pad_len n) x00.

(** Modelled from the spec: [encode] of the XDR Codec, missing from the
    source files.  Opaque data is followed by zero bytes up to the next
    4-byte boundary.  A value that is not of the descriptor's type has no
    encoding; the empty byte string stands for it. *)
Fixpoint encode(v : value) (ty : type_descriptor) {struct ty}
  : list byte :=
  match ty, v with
  | TUInt32, VInt n => Z_to_be 4 n
  | TInt32, VInt n => Z_to_be 4 n
  | TUInt64, VInt n => Z_to_be 8 n
  | TInt64, VInt n => Z_to_be 8 n
  | TBool, VBool b => Z_to_be 4 (if b then 1 else 0)
  | TFixedOpaque n, VOpaque data => data ++ padding (length data)
  | TVarOpaque max, VOpaque data =>
      Z_to_be 4 (Z.of_nat (length data)) ++ data ++ padding (length data)
  | TFixedArray n elem, VSeq items =>
      flat_map (λ v, encode v elem) items
  | TVarArray max elem, VSeq items =>
      Z_to_be 4 (Z.of_nat (length items))
        ++ flat_map (λ v, encode v elem) items
  | TRecord fields, VRecord vs => encode_fields encode fields vs
  | TUnion arms default, VUnion disc v =>
      Z_to_be 4 disc ++ with_arm (λ t, encode v t) [] default disc arms
  | TOptional elem, VOptional None => Z_to_be 4 0
  | TOptional elem, VOptional (Some v) => Z_to_be 4 1 ++ encode v elem
  | _, _ => []
  end.

(** *** Valid values of a descriptor's type *)

Definition in_range (lo hi n : Z) : bool := (lo <=? n) && (n <? hi).

(** Modelled from the spec: the valid values of a descriptor's type.  An
    integer fits its width, a length or element count fits 32 bits and the
    declared maximum, a record has the declared fields in order, a union
    value has a discriminant with a registered or default arm and a valid
    value of that arm. *)
Fixpoint valid(ty : type_descriptor) (v : value) {struct ty} : bool :=
  match ty, v with
  | TUInt32, VInt n => in_range 0 (2 ^ 32) n
  | TInt32, VInt n => in_range (- 2 ^ 31) (2 ^ 31) n
  | TUInt64, VInt n => in_range 0 (2 ^ 64) n
  | TInt64, VInt n => in_range (- 2 ^ 63) (2 ^ 63) n
  | TBool, VBool b => true
  | TFixedOpaque n, VOpaque data => bool_decide (length data = n)
  | TVarOpaque max, VOpaque data =>
      (Z.of_nat (length data) <=? max)
      && in_range 0 (2 ^ 32) (Z.of_nat (length data))
  | TFixedArray n elem, VSeq items =>
      bool_decide (length items = n) && forallb (valid elem) items
  | TVarArray max elem, VSeq items =>
      (Z.of_nat (length items) <=? max)
      && in_range 0 (2 ^ 32) (Z.of_nat (length items))
      && forallb (valid elem) items
  | TRecord fields, VRecord vs => valid_fields valid fields vs
  | TUnion arms default, VUnion disc v =>
      in_range (- 2 ^ 31) (2 ^ 31) disc
      && with_arm (λ t, valid t v) false default disc arms
  | TOptional elem, VOptional None => true
  | TOptional elem, VOptional (Some v) => valid elem v
  | _, _ => false
  end.

End xdr.

Import xdr.


(** Induction on a type descriptor, with the hypothesis for every field of
    a record and every arm of a union. *)
Section type_descriptor_nested_ind.

Context (P : type_descriptor → Prop).
Context (HUInt32 : P TUInt32) (HInt32 : P TInt32).
Context (HUInt64 : P TUInt64) (HInt64 : P TInt64).
Context (HBool : P TBool).
Context (HFixedOpaque : ∀ n, P (TFixedOpaque n)).
Context (HVarOpaque : ∀ max, P (TVarOpaque max)).
Context (HFixedArray : ∀ n elem, P elem → P (TFixedArray n elem)).
Context (HVarArray : ∀ max elem, P elem → P (TVarArray max elem)).
Context (HRecord : ∀ fields,
            Forall (λ f, P f.2) fields → P (TRecord fields)).
Context (HUnion : ∀ arms default,
            Forall (λ a, P a.2) arms →
            from_option P True default →
            P (TUnion arms default)).
Context (HOptional : ∀ elem, P elem → P (TOptional elem)).

Fixpoint type_descriptor_nested_ind (ty : type_descriptor) : P ty :=
  match ty with
  | TUInt32 => HUInt32
  | TInt32 => HInt32
  | TUInt64 => HUInt64
  | TInt64 => HInt64
  | TBool => HBool
  | TFixedOpaque n => HFixedOpaque n
  | TVarOpaque max => HVarOpaque max
  | TFixedArray n elem =>
      HFixedArray n elem (type_descriptor_nested_ind elem)
  | TVarArray max elem =>
      HVarArray max elem (type_descriptor_nested_ind elem)
  | TRecord fields =>
      HRecord fields
        ((fix all (fs : list (string * type_descriptor))
            : Forall (λ f, P f.2) fs :=
            match fs with
            | [] => @List.Forall_nil _ _
            | f :: fs' =>
                @List.Forall_cons _ (λ f, P f.2) f fs' (type_descriptor_nested_ind f.2) (all fs')
            end) fields)
  | TUnion arms default =>
      HUnion arms default
        ((fix all (l : list (Z * type_descriptor))
            : Forall (λ a, P a.2) l :=
            match l with
            | [] => @List.Forall_nil _ _
            | a :: l' =>
                @List.Forall_cons _ (λ a, P a.2) a l' (type_descriptor_nested_ind a.2) (all l')
            end) arms)
        (match default as d return from_option P True d with
         | Some t => type_descriptor_nested_ind t
         | None => I
         end)
  | TOptional elem => HOptional elem (type_descriptor_nested_ind elem)
  end.

End type_descriptor_nested_ind.

(** Decoding the encoding of [v], wherever it sits in the byte buffer,
    gives [v] back and moves the cursor past it. *)
Definition round_trips (ty : type_descriptor) : Prop :=
  ∀ v bytes pre suf c,
    valid ty v = true →
    bytes = pre ++ encode v ty ++ suf → c = length pre →
    decode bytes c ty = Ok (v, (c + length (encode v ty))%nat).

(** A record descriptor with every kind of field, and a value of it. *)
Definition sample_descriptor : type_descriptor :=
  TRecord
    [ ("count", TUInt32);
      ("owner", TVarOpaque 1024);
      ("status", TUnion [(0, TRecord []); (1, TInt32)] None);
      ("offset", TOptional TInt64);
      ("next", TOptional TUInt64);
      ("flags", TVarArray 5 TBool);
      ("cookie", TFixedOpaque 5) ].

Definition sample_value : value :=
  VRecord
    [ ("count", VInt 258);
      ("owner", VOpaque [x01; x02; x03; x04; x05]);
      ("status", VUnion 1 (VInt (-2)));
      ("offset", VOptional (Some (VInt (-1))));
      ("next", VOptional None);
      ("flags", VSeq [VBool true; VBool false]);
      ("cookie", VOpaque [x0a; x0b; x0c; x0d; x0e]) ].

Module nlm.

(** Modelled from the spec: the NLM structure decoders are not in the
    source files.  An NLM opaque field is variable-length opaque data
    whose declared length is bounded by [MAXNETOBJ_SZ]. *)
Definition netobj : type_descriptor :=
  TVarOpaque nlm4_const.MAXNETOBJ_SZ.

End nlm.

Module decoder.

(** The Protocol Decoders of section 4.2 are not in the source files; this
    module models their enumerated fields from the spec. *)

(** Modelled from the spec: a field typed as an enum names the constant
    table it is resolved against and whether it is marked fixed for all
    versions. *)
Record enum_field := {
  table : table_id;
  fixed_for_all_versions : bool;
}.

(** Modelled from the spec: an enumerated field of a decoded record, the
    raw value with the resolved symbolic name. *)
Record enum_value := {
  raw : Z;
  label : string;
}.

(** The synthesized label of a code no table entry names, with [n] in
    decimal. *)
Definition unknown_label (n : Z) : string :=
  "UNKNOWN(" +:+ pretty n +:+ ")".

(** Modelled from the spec: resolution of a raw code.  A code the table
    does not have is kept under the label "UNKNOWN(n)", except in a field
    marked fixed for all versions, where it is a [ProtocolViolation]. *)
Definition resolve_enum (f : enum_field) (n : Z) : result enum_value :=
  match constant_tables.lookup (table f) n with
  | Some name => Ok {| raw := n; label := name |}
  | None =>
      if fixed_for_all_versions f then Err ProtocolViolation
      else Ok {| raw := n; label := unknown_label n |}
  end.

(** Modelled from the spec: decoding of a field typed as an enum, a signed
    32-bit integer read through the codec and then resolved. *)
Definition decode_enum (bytes : list byte) (cursor : nat) (f : enum_field)
  : result (enum_value * nat) :=
  let* '(n, c) := read_int 4 bytes cursor in
  let* e := resolve_enum f n in
  Ok (e, c).

End decoder.

Module rpcordma.

(** The RDMA Chunk Reassembler of section 4.4 is not in the source files;
    this module models it from the spec.  Its input is one decoded
    RPCoRDMA framing header and the rest of the captured payload; its
    behaviour is given per proc value. *)

(** Modelled from the spec: the Chunk Descriptor of section 3. *)
Record chunk_descriptor := {
  position : Z;
  chunk_length : Z;
  handle : Z;
}.

(** Modelled from the spec: the decoded framing header, as far as the
    reassembler reads it: the proc value, the ordered read and write chunk
    lists and the reply chunk, singular when present. *)
Record rdma_header := {
  proc : Z;
  read_chunks : list chunk_descriptor;
  write_chunks : list chunk_descriptor;
  reply_chunk : option chunk_descriptor;
}.

(** Modelled from the spec: the output, the inline bytes with the chunk
    positions left as unresolved placeholders, or the error report of
    RDMA_ERROR. *)
Inductive reassembled :=
| Stream (inline : list byte) (unresolved : list chunk_descriptor)
| ErrorReport (report : list byte).

Definition chunks (hdr : rdma_header) : list chunk_descriptor :=
  read_chunks hdr ++ write_chunks hdr ++ option_list (reply_chunk hdr).

(** The proc field is fixed for all versions and resolved against
    [rdma_proc]. *)
Definition proc_field : decoder.enum_field :=
  {| decoder.table := T_rdma_proc;
     decoder.fixed_for_all_versions := true |}.

(** Modelled from the spec: the reassembler.  A proc that [rdma_proc] does
    not have is a [ProtocolViolation]; RDMA_MSG gives the inline bytes with
    the chunk positions unresolved; RDMA_NOMSG requires at least one chunk
    descriptor; RDMA_ERROR gives the error report and ignores the chunks;
    RDMA_MSGP and RDMA_DONE, not to be used, are a [ProtocolViolation]. *)
Definition reassemble (hdr : rdma_header) (payload : list byte)
  : result reassembled :=
  let* p := decoder.resolve_enum proc_field (proc hdr) in
  if decoder.raw p =? rpcordma_const.RDMA_MSG then
    Ok (Stream payload (chunks hdr))
  else if decoder.raw p =? rpcordma_const.RDMA_NOMSG then
    match chunks hdr with
    | [] => Err ProtocolViolation
    | cs => Ok (Stream [] cs)
    end
  else if decoder.raw p =? rpcordma_const.RDMA_ERROR then
    Ok (ErrorReport payload)
  else
    (* RDMA_MSGP, RDMA_DONE *)
    Err ProtocolViolation.

(** Modelled from the spec: one chunk descriptor on the wire, its position,
    length and handle as three unsigned 32-bit integers. *)
Definition decode_chunk (bytes : list byte) (cursor : nat)
  : result (chunk_descriptor * nat) :=
  let* '(p, c1) := read_uint 4 bytes cursor in
  let* '(l, c2) := read_uint 4 bytes c1 in
  let* '(h, c3) := read_uint 4 bytes c2 in
  Ok ({| position := p; chunk_length := l; handle := h |}, c3).

Fixpoint decode_chunks (bytes : list byte) (n : nat) (cursor : nat)
  : result (list chunk_descriptor * nat) :=
  match n with
  | O => Ok ([], cursor)
  | S n' =>
      let* '(ch, c1) := decode_chunk bytes cursor in
      let* '(chs, c2) := decode_chunks bytes n' c1 in
      Ok (ch :: chs, c2)
  end.

(** Modelled from the spec: an ordered chunk list, a 32-bit count followed
    by that many descriptors. *)
Definition decode_chunk_list (bytes : list byte) (cursor : nat)
  : result (list chunk_descriptor * nat) :=
  let* '(n, c1) := read_uint 4 bytes cursor in
  decode_chunks bytes (Z.to_nat n) c1.

(** Modelled from the spec: the reply chunk, singular when present, behind
    a presence flag. *)
Definition decode_reply_chunk (bytes : list byte) (cursor : nat)
  : result (option chunk_descriptor * nat) :=
  let* '(flag, c1) := read_uint 4 bytes cursor in
  if flag =? 0 then Ok (None, c1)
  else
    let* '(ch, c2) := decode_chunk bytes c1 in
    Ok (Some ch, c2).

(** Modelled from the spec: decoding of one RPCoRDMA message from its
    bytes, missing from the source files.  The spec gives no byte layout
    for the framing header; the one of the RPC-over-RDMA standard it names
    is used: transaction identifier, version, credit and proc, each 32
    bits, the proc at byte offset 12.  The proc is resolved first, as a
    field fixed for all versions.  RDMA_MSGP and RDMA_DONE fail at once,
    before anything after the proc is read; RDMA_ERROR short-circuits to
    the error report; for RDMA_MSG and RDMA_NOMSG the chunk-list header
    (read list, write list, reply chunk) is decoded and the rest of the
    bytes is handed to [reassemble] as payload. *)
Definition decode_message (bytes : list byte) : result reassembled :=
  let* '(xid, c1) := read_uint 4 bytes 0 in
  let* '(vers, c2) := read_uint 4 bytes c1 in
  let* '(credit, c3) := read_uint 4 bytes c2 in
  let* '(p, c4) := decoder.decode_enum bytes c3 proc_field in
  if (decoder.raw p =? rpcordma_const.RDMA_MSGP)
     || (decoder.raw p =? rpcordma_const.RDMA_DONE) then
    Err ProtocolViolation
  else if decoder.raw p =? rpcordma_const.RDMA_ERROR then
    reassemble
      {| proc := decoder.raw p; read_chunks := []; write_chunks := [];
         reply_chunk := None |}
      (drop c4 bytes)
  else
    let* '(reads, c5) := decode_chunk_list bytes c4 in
    let* '(writes, c6) := decode_chunk_list bytes c5 in
    let* '(reply, c7) := decode_reply_chunk bytes c6 in
    reassemble
      {| proc := decoder.raw p; read_chunks := reads;
         write_chunks := writes; reply_chunk := reply |}
      (drop c7 bytes).

End rpcordma.


(** ** The module namespaces *)

(** The objects the two constant modules bind names to. *)
Inductive pyval :=
| PInt (n : Z)
| PStr (s : string)
| PDict (d : gmap Z string)
| PModule (name : string).

(** [fmt % arg] for a format whose conversion is "%s" and a str argument:
    the conversion is replaced by the argument. *)
Fixpoint py_format_s (fmt arg : string) : string :=
  match fmt with
  | String "%"%char (String "s"%char rest) => arg +:+ rest
  | String a rest => String a (py_format_s rest arg)
  | EmptyString => EmptyString
  end.

Inductive module_id := M_rpcordma_const | M_nlm4_const.

(** The module each table is defined in, and the name it is bound to. *)
Definition module_of (t : table_id) : module_id :=
  match t with
  | T_rpc_rdma_errcode | T_rdma_proc => M_rpcordma_const
  | _ => M_nlm4_const
  end.

Definition table_name (t : table_id) : string :=
  match t with
  | T_rpc_rdma_errcode => "rpc_rdma_errcode"
  | T_rdma_proc => "rdma_proc"
  | T_nfs_bool => "nfs_bool"
  | T_nlm4_stats => "nlm4_stats"
  | T_fsh4_mode => "fsh4_mode"
  | T_fsh4_access => "fsh4_access"
  | T_nlm_proc4 => "nlm_proc4"
  end.

(** The statements under an [# Enum ...] heading: the constant
    assignments, then the assignment of the dictionary. *)
Definition enum_section (t : table_id) : list (string * pyval) :=
  ((λ c : string * Z, (c.1, PInt c.2)) <$> table_consts t)
    ++ [(table_name t, PDict (table_of t))].

(** The docstring of a module: the title between two line feeds. *)
Definition docstring (title : string) : string :=
  String "010"%char title +:+ String "010"%char EmptyString.

(** The docstring, which binds [__doc__], then
    [import nfstest_config as c] and the [# Module constants] block;
    [email] is the value of [c.NFSTEST_AUTHOR_EMAIL], defined outside the
    two modules. *)
Definition module_constants (title copyright version email : string)
  : list (string * pyval) :=
  [ ("__doc__", PStr (docstring title));
    ("c", PModule "nfstest_config");
    ("__author__", PStr (py_format_s "Jorge Mora (%s)" email));
    ("__copyright__", PStr copyright);
    ("__license__", PStr "GPL v2");
    ("__version__", PStr version) ].

(** The name bindings made by the statements of each module, in source
    order: the docstring, the import and the assignments.  These are all
    the statements of the two files. *)
Definition module_body (m : module_id) (email : string)
  : list (string * pyval) :=
  match m with
  | M_rpcordma_const =>
      module_constants "RPCORDMA constants module"
        "Copyright (C) 2017 NetApp, Inc." "1.0" email
        ++ enum_section T_rpc_rdma_errcode
        ++ enum_section T_rdma_proc
  | M_nlm4_const =>
      module_constants "NLMv4 constants module"
        "Copyright (C) 2014 NetApp, Inc." "4.0" email
        ++ enum_section T_nfs_bool
        ++ [ ("LM_MAXSTRLEN", PInt nlm4_const.LM_MAXSTRLEN);
             ("MAXNAMELEN", PInt nlm4_const.MAXNAMELEN);
             ("MAXNETOBJ_SZ", PInt nlm4_const.MAXNETOBJ_SZ) ]
        ++ enum_section T_nlm4_stats
        ++ enum_section T_fsh4_mode
        ++ enum_section T_fsh4_access
        ++ enum_section T_nlm_proc4
  end.

(** Running a module body: each statement binds its name in the module
    namespace, replacing an earlier binding of the same name. *)
Definition exec_module (body : list (string * pyval)) : gmap string pyval :=
  foldl (λ g b, <[b.1 := b.2]> g) ∅ body.

(** The names the statements of a module have bound once its body has
    run.  The names the import system gives every module before its body
    runs ([__name__], [__file__] and the like) come from no statement of
    the source and are not in it. *)
Definition module_globals (m : module_id) (email : string)
  : gmap string pyval :=
  exec_module (module_body m email).

(** The names bound by statements of both modules. *)
Definition shared_names : list string :=
  [ "__doc__"; "c"; "__author__"; "__copyright__"; "__license__";
    "__version__" ].

(** The first code of a table's display. *)
Definition first_code (t : table_id) : Z := hd 0 (table_items t).*1.

(** Every entry of every table, with the table it belongs to. *)
Definition all_entries : list (table_id * (Z * string)) :=
  t ← [ T_rpc_rdma_errcode; T_rdma_proc; T_nfs_bool; T_nlm4_stats;
        T_fsh4_mode; T_fsh4_access; T_nlm_proc4 ];
  (λ kv, (t, kv)) <$> table_items t.

(** * Properties of the constant tables *)

Section dict_display.

Implicit Types (items : list (Z * string)) (k : Z) (v : string).

Lemma dict_display_snoc items k v :
  dict_display (items ++ [(k, v)]) = <[k := v]> (dict_display items).
Proof. unfold dict_display. by rewrite foldl_snoc. Qed.

Lemma dict_display_lookup_None items k :
  dict_display items !! k = None ↔ k ∉ items.*1.
Proof.
  induction items as [|[k' v'] items IH] using rev_ind.
  - cbn. rewrite lookup_empty. split; [intros _; apply not_elem_of_nil | done].
  - rewrite dict_display_snoc, fmap_app, not_elem_of_app. cbn.
    rewrite lookup_insert_None, IH, not_elem_of_cons.
    split; [intros [? ?]|intros [? [? _]]]; repeat split; auto using not_elem_of_nil.
Qed.

Lemma dict_display_lookup_Some items k v :
  NoDup items.*1 →
  dict_display items !! k = Some v ↔ (k, v) ∈ items.
Proof.
  induction items as [|[k' v'] items IH] using rev_ind; intros Hnd.
  - cbn. rewrite lookup_empty. split; [done | intros H; inversion H].
  - rewrite fmap_app in Hnd. apply NoDup_app in Hnd as (Hnd & Hfresh & _).
    rewrite dict_display_snoc, lookup_insert_Some, elem_of_app, list_elem_of_singleton.
    rewrite (IH Hnd). split.
    + intros [[-> ->] | [_ Hin]]; auto.
    + intros [Hin | [= -> ->]]; [right | by left].
      split; [|done]. intros ->. apply (Hfresh k).
      * apply list_elem_of_fmap. by exists (k, v).
      * cbn. apply list_elem_of_singleton. done.
Qed.

Lemma NoDup_snd_inj items k1 k2 v :
  NoDup items.*2 → (k1, v) ∈ items → (k2, v) ∈ items → k1 = k2.
Proof.
  induction items as [|[k' v'] items IH]; cbn; intros Hnd H1 H2.
  - inversion H1.
  - apply NoDup_cons in Hnd as [Hnotin Hnd].
    apply elem_of_cons in H1 as [E1 | H1];
      apply elem_of_cons in H2 as [E2 | H2]; simplify_eq; auto.
    + exfalso. apply Hnotin, list_elem_of_fmap. by exists (k2, v').
    + exfalso. apply Hnotin, list_elem_of_fmap. by exists (k1, v').
Qed.

End dict_display.

(** Every table is the dictionary display of its items, and no display
    repeats a key or a name. *)
Lemma table_of_display t : table_of t = dict_display (table_items t).
Proof. by destruct t. Qed.

Lemma table_items_keys_NoDup t : NoDup (table_items t).*1.
Proof. destruct t; apply (bool_decide_unpack _); vm_compute; exact I. Qed.

Lemma table_items_names_NoDup t : NoDup (table_items t).*2.
Proof. destruct t; apply (bool_decide_unpack _); vm_compute; exact I. Qed.

Lemma table_of_lookup_Some t k v :
  table_of t !! k = Some v ↔ (k, v) ∈ table_items t.
Proof.
  rewrite table_of_display.
  apply dict_display_lookup_Some, table_items_keys_NoDup.
Qed.

Lemma table_of_lookup_None t k :
  table_of t !! k = None ↔ k ∉ (table_items t).*1.
Proof. rewrite table_of_display. apply dict_display_lookup_None. Qed.

Lemma table_of_inj t k1 k2 v :
  table_of t !! k1 = Some v → table_of t !! k2 = Some v → k1 = k2.
Proof.
  rewrite !table_of_lookup_Some.
  apply NoDup_snd_inj, table_items_names_NoDup.
Qed.

(** C1. For each of the seven tables and every integer code, [lookup]
    returns the name the table's display records for the code when the
    code is one of its keys, and [None] when it is not. *)
Theorem lookup_table_entry (t : table_id) (code : Z) :
  (∀ name, constant_tables.lookup t code = Some name ↔ (code, name) ∈ table_items t) ∧
  (constant_tables.lookup t code = None ↔ code ∉ (table_items t).*1) ∧
  (∀ name, table_of t !! code = Some name → constant_tables.lookup t code = Some name) ∧
  (code ∉ dom (table_of t) → constant_tables.lookup t code = None).
Proof.
  unfold constant_tables.lookup. repeat split.
  - apply table_of_lookup_Some.
  - apply table_of_lookup_Some.
  - apply table_of_lookup_None.
  - apply table_of_lookup_None.
  - done.
  - apply not_elem_of_dom.
Qed.

Lemma lookup_table_entry_witness :
  constant_tables.lookup T_nlm_proc4 20 = Some "NLMPROC4_SHARE" ∧ constant_tables.lookup T_nlm_proc4 16 = None.
Proof.
  split.
  - apply (proj2 (proj2 (lookup_table_entry T_nlm_proc4 20))).
    vm_compute. reflexivity.
  - apply (proj2 (proj2 (proj2 (lookup_table_entry T_nlm_proc4 16)))).
    rewrite elem_of_dom. vm_compute. intros [x Hx]. discriminate Hx.
Defined.

(** C5. The codes marked "Value fixed for all versions" have the numeric
    values RDMA_MSG = 0, RDMA_NOMSG = 1, RDMA_ERROR = 4 and ERR_VERS = 1,
    and the tables [rdma_proc] and [rpc_rdma_errcode] map each of them back
    to its symbolic name. *)
Theorem fixed_codes_values :
  rpcordma_const.RDMA_MSG = 0 ∧
  rpcordma_const.RDMA_NOMSG = 1 ∧
  rpcordma_const.RDMA_ERROR = 4 ∧
  rpcordma_const.ERR_VERS = 1 ∧
  rpcordma_const.rdma_proc !! rpcordma_const.RDMA_MSG = Some "RDMA_MSG" ∧
  rpcordma_const.rdma_proc !! rpcordma_const.RDMA_NOMSG = Some "RDMA_NOMSG" ∧
  rpcordma_const.rdma_proc !! rpcordma_const.RDMA_ERROR = Some "RDMA_ERROR" ∧
  rpcordma_const.rpc_rdma_errcode !! rpcordma_const.ERR_VERS = Some "ERR_VERS".
Proof. repeat split; vm_compute; reflexivity. Qed.

(** C6. The NLMv4 size limits are LM_MAXSTRLEN = 1024, MAXNETOBJ_SZ = 1024
    and MAXNAMELEN = LM_MAXSTRLEN + 1 = 1025, as integers. *)
Theorem nlm4_size_limits :
  nlm4_const.LM_MAXSTRLEN = 1024 ∧
  nlm4_const.MAXNETOBJ_SZ = 1024 ∧
  nlm4_const.MAXNAMELEN = nlm4_const.LM_MAXSTRLEN + 1 ∧
  nlm4_const.MAXNAMELEN = 1025.
Proof. repeat split. Qed.

(** Each table's display lists the constants of its block, code first. *)
Lemma table_items_consts t :
  table_consts t = (λ kv : Z * string, (kv.2, kv.1)) <$> table_items t.
Proof. by destruct t. Qed.

Lemma elem_of_table_consts t name n :
  (name, n) ∈ table_consts t ↔ (n, name) ∈ table_items t.
Proof.
  rewrite table_items_consts, list_elem_of_fmap. split.
  - intros ([k v] & [= -> ->] & Hin). exact Hin.
  - intros Hin. by exists (n, name).
Qed.

(** C8. In both constant modules, every enum constant [NAME = n] is mapped
    by its table from [n] to the string "NAME", and every entry of a table
    comes from such a constant. *)
Theorem consts_agree_with_table (t : table_id) :
  (∀ name n, (name, n) ∈ table_consts t → table_of t !! n = Some name) ∧
  (∀ n name, table_of t !! n = Some name → (name, n) ∈ table_consts t).
Proof.
  split; intros ? ?; rewrite elem_of_table_consts, table_of_lookup_Some; done.
Qed.

Lemma consts_agree_with_table_witness :
  nlm4_const.nlm_proc4 !! nlm4_const.NLMPROC4_FREE_ALL
    = Some "NLMPROC4_FREE_ALL"
  ∧ ("RDMA_DONE", rpcordma_const.RDMA_DONE) ∈ rpcordma_const.rdma_proc_consts.
Proof.
  split.
  - apply (proj1 (consts_agree_with_table T_nlm_proc4)).
    apply (bool_decide_unpack _). vm_compute. exact I.
  - apply (proj2 (consts_agree_with_table T_rdma_proc)).
    vm_compute. reflexivity.
Defined.

Lemma reverse_lookup_Some t name k :
  reverse_lookup t name = Some k ↔ table_of t !! k = Some name.
Proof.
  unfold reverse_lookup. split.
  - intros Hfind. apply fmap_Some in Hfind as ([i [k' v]] & Hfind & ->).
    apply list_find_Some in Hfind as (Hi & Hv & _). cbn in *. subst v.
    apply elem_of_map_to_list, list_elem_of_lookup. by exists i.
  - intros Hk.
    assert (Hin : (k, name) ∈ map_to_list (table_of t))
      by by apply elem_of_map_to_list.
    destruct (list_find (λ kv : Z * string, kv.2 = name)
                (map_to_list (table_of t))) as [[i [k' v]]|] eqn:Hfind.
    + apply list_find_Some in Hfind as (Hi & Hv & _). cbn in *. subst v.
      f_equal. apply (table_of_inj t k' k name); [|done].
      apply elem_of_map_to_list, list_elem_of_lookup. by exists i.
    + exfalso. apply list_find_None in Hfind.
      rewrite Forall_forall in Hfind. by apply (Hfind _ Hin).
Qed.

(** C9. Every code-to-name table is injective: two codes with the same
    name are equal, so the search of a table by name returns a code
    exactly when the table maps that code to the name. *)
Theorem table_injective (t : table_id) :
  (∀ k1 k2 name,
      table_of t !! k1 = Some name → table_of t !! k2 = Some name → k1 = k2) ∧
  (∀ k name, reverse_lookup t name = Some k ↔ table_of t !! k = Some name).
Proof.
  split.
  - intros k1 k2 name. apply table_of_inj.
  - intros k name. apply reverse_lookup_Some.
Qed.

Lemma table_injective_witness :
  nlm4_const.NLM4_DENIED = 1 ∧
  reverse_lookup T_nlm4_stats "NLM4_DENIED" = Some nlm4_const.NLM4_DENIED.
Proof.
  split.
  - apply (proj1 (table_injective T_nlm4_stats) _ _ "NLM4_DENIED");
      vm_compute; reflexivity.
  - apply (proj2 (table_injective T_nlm4_stats)). vm_compute. reflexivity.
Defined.

Lemma nlm_proc4_is_Some k :
  is_Some (nlm4_const.nlm_proc4 !! k) ↔ (0 ≤ k ≤ 15 ∨ 20 ≤ k ≤ 23).
Proof.
  split.
  - intros [name Hk]. apply (table_of_lookup_Some T_nlm_proc4) in Hk.
    cbn in Hk. unfold nlm4_const.nlm_proc4_items in Hk.
    repeat (apply elem_of_cons in Hk as [[= -> _] | Hk]; [lia|]).
    inversion Hk.
  - intros Hk.
    assert (Hcases : k ∈ seqZ 0 16 ++ seqZ 20 4)
      by (rewrite elem_of_app, !elem_of_seqZ; lia).
    vm_compute in Hcases.
    repeat (apply elem_of_cons in Hcases as [-> | Hcases];
            [vm_compute; eauto|]).
    inversion Hcases.
Qed.

(** C10. The keys of [nlm_proc4] are exactly 0..15 and 20..23: the codes
    16, 17, 18 and 19 are absent and looking them up gives [None], while
    20 to 23 are found. *)
Theorem nlm_proc4_key_set :
  (∀ k, k ∈ dom nlm4_const.nlm_proc4 ↔ (0 ≤ k ≤ 15 ∨ 20 ≤ k ≤ 23)) ∧
  dom nlm4_const.nlm_proc4
    = (list_to_set (seqZ 0 16) ∪ list_to_set (seqZ 20 4) : gset Z) ∧
  (∀ k, 16 ≤ k ≤ 19 → constant_tables.lookup T_nlm_proc4 k = None) ∧
  (∀ k, 20 ≤ k ≤ 23 → is_Some (constant_tables.lookup T_nlm_proc4 k)).
Proof.
  split; [|split; [|split]].
  - intros k. rewrite elem_of_dom. apply nlm_proc4_is_Some.
  - apply set_eq. intros k.
    rewrite elem_of_dom, nlm_proc4_is_Some, elem_of_union.
    rewrite !elem_of_list_to_set, !elem_of_seqZ. lia.
  - intros k Hk. unfold constant_tables.lookup. cbn. apply eq_None_not_Some.
    rewrite nlm_proc4_is_Some. lia.
  - intros k Hk. unfold constant_tables.lookup. cbn. apply nlm_proc4_is_Some. lia.
Qed.

Lemma nlm_proc4_key_set_witness :
  constant_tables.lookup T_nlm_proc4 17 = None ∧ is_Some (constant_tables.lookup T_nlm_proc4 22).
Proof.
  split.
  - apply (proj1 (proj2 (proj2 nlm_proc4_key_set)) 17). lia.
  - apply (proj2 (proj2 (proj2 nlm_proc4_key_set)) 22). lia.
Defined.


(** * Round trip of the XDR codec *)

Section big_endian.

Lemma byte_to_of_Z z : byte_to_Z (byte_of_Z z) = z mod 256.
Proof.
  unfold byte_to_Z, byte_of_Z.
  assert (Hr : 0 ≤ z mod 256 < 256) by (apply Z.mod_pos_bound; lia).
  destruct (Byte.of_N (Z.to_N (z mod 256))) as [b|] eqn:Hb; cbn.
  - apply Byte.to_of_N in Hb. rewrite Hb. lia.
  - apply Byte.of_N_None_iff in Hb. lia.
Qed.

Lemma be_to_Z_snoc bs b : be_to_Z (bs ++ [b]) = be_to_Z bs * 256 + byte_to_Z b.
Proof. unfold be_to_Z. by rewrite foldl_snoc. Qed.

Lemma length_Z_to_be n z : length (Z_to_be n z) = n.
Proof.
  revert z. induction n as [|n IH]; intros z; cbn; [done|].
  rewrite length_app, IH. cbn. lia.
Qed.

Lemma be_to_Z_to_be n z : be_to_Z (Z_to_be n z) = z mod 256 ^ Z.of_nat n.
Proof.
  revert z. induction n as [|n IH]; intros z.
  - cbn. by rewrite Z.mod_1_r.
  - cbn [Z_to_be]. rewrite be_to_Z_snoc, IH, byte_to_of_Z.
    rewrite Nat2Z.inj_succ, Z.pow_succ_r by lia.
    rewrite Z.rem_mul_r by lia. lia.
Qed.

Lemma be_to_Z_to_be_small n z :
  0 ≤ z < 256 ^ Z.of_nat n → be_to_Z (Z_to_be n z) = z.
Proof. intros Hz. rewrite be_to_Z_to_be. by apply Z.mod_small. Qed.

Lemma to_signed_wrap w z :
  (0 < w)%nat →
  - 2 ^ (8 * Z.of_nat w - 1) ≤ z < 2 ^ (8 * Z.of_nat w - 1) →
  to_signed w (z mod 256 ^ Z.of_nat w) = z.
Proof.
  intros Hw Hz. unfold to_signed.
  assert (H256 : 256 ^ Z.of_nat w = 2 ^ (8 * Z.of_nat w)).
  { change 256 with (2 ^ 8). rewrite <- Z.pow_mul_r by lia. done. }
  assert (Hhalf : 2 ^ (8 * Z.of_nat w) = 2 * 2 ^ (8 * Z.of_nat w - 1)).
  { rewrite <- Z.pow_succ_r by lia. f_equal. lia. }
  rewrite H256.
  destruct (decide (0 ≤ z)) as [Hpos|Hneg].
  - rewrite Z.mod_small by lia.
    destruct (Z.ltb_spec z (2 ^ (8 * Z.of_nat w - 1))); lia.
  - assert (Hmod : z mod 2 ^ (8 * Z.of_nat w) = z + 2 ^ (8 * Z.of_nat w)).
    { symmetry. apply Z.mod_unique with (q := -1); lia. }
    rewrite Hmod.
    destruct (Z.ltb_spec (z + 2 ^ (8 * Z.of_nat w))
                (2 ^ (8 * Z.of_nat w - 1))); lia.
Qed.

End big_endian.


Section reading.

Implicit Types (bytes pre bs suf data : list byte) (c n : nat).

Lemma read_bytes_app bytes pre bs suf c n :
  bytes = pre ++ bs ++ suf → c = length pre → n = length bs →
  read_bytes bytes c n = Ok (bs, (c + n)%nat).
Proof.
  intros -> -> ->. unfold read_bytes.
  rewrite decide_True by (rewrite !length_app; lia).
  by rewrite drop_app_length, take_app_length.
Qed.

Lemma read_uint_app w z bytes pre suf c :
  bytes = pre ++ Z_to_be w z ++ suf → c = length pre →
  read_uint w bytes c = Ok (z mod 256 ^ Z.of_nat w, (c + w)%nat).
Proof.
  intros Hb Hc. unfold read_uint.
  rewrite (read_bytes_app _ _ _ _ _ _ Hb Hc) by (by rewrite length_Z_to_be).
  cbn. by rewrite be_to_Z_to_be.
Qed.

Lemma read_int_app w z bytes pre suf c :
  (0 < w)%nat →
  - 2 ^ (8 * Z.of_nat w - 1) ≤ z < 2 ^ (8 * Z.of_nat w - 1) →
  bytes = pre ++ Z_to_be w z ++ suf → c = length pre →
  read_int w bytes c = Ok (z, (c + w)%nat).
Proof.
  intros Hw Hz Hb Hc. unfold read_int.
  rewrite (read_uint_app _ _ _ _ _ _ Hb Hc). cbn.
  by rewrite to_signed_wrap.
Qed.

Lemma forallb_is_zero_padding n : forallb is_zero (padding n) = true.
Proof. unfold padding. induction (pad_len n); cbn; auto. Qed.

Lemma read_padded_app bytes pre data suf c :
  bytes = pre ++ (data ++ padding (length data)) ++ suf → c = length pre →
  read_padded bytes c (length data)
  = Ok (data, (c + length (data ++ padding (length data)))%nat).
Proof.
  intros Hb Hc. unfold read_padded.
  rewrite (read_bytes_app bytes pre data (padding (length data) ++ suf))
    by (done || by rewrite Hb, <- !app_assoc).
  cbn [bind].
  rewrite (read_bytes_app bytes (pre ++ data) (padding (length data)) suf).
  - cbn [bind]. rewrite forallb_is_zero_padding. do 2 f_equal.
    rewrite length_app. unfold padding. rewrite length_replicate. lia.
  - by rewrite Hb, <- !app_assoc.
  - rewrite length_app. lia.
  - unfold padding. by rewrite length_replicate.
Qed.

End reading.


Lemma in_range_true lo hi n : in_range lo hi n = true → lo ≤ n < hi.
Proof. unfold in_range. rewrite andb_true_iff. lia. Qed.

Lemma decode_items_round_trip elem items bytes pre suf c :
  round_trips elem →
  forallb (valid elem) items = true →
  bytes = pre ++ flat_map (λ v, encode v elem) items ++ suf →
  c = length pre →
  decode_items (λ c, decode bytes c elem) (length items) c
  = Ok (items, (c + length (flat_map (λ v, encode v elem) items))%nat).
Proof.
  intros Helem. revert pre c.
  induction items as [|v items IH]; intros pre c Hok Hb Hc.
  - cbn. do 2 f_equal. lia.
  - cbn in Hok. apply andb_true_iff in Hok as [Hv Hok].
    cbn [length decode_items flat_map].
    rewrite (Helem v bytes pre
               (flat_map (λ v, encode v elem) items ++ suf) c Hv)
      by (done || by rewrite Hb; cbn; rewrite <- app_assoc).
    cbn [bind].
    rewrite (IH (pre ++ encode v elem)); [| done | |].
    + cbn [bind]. do 2 f_equal. rewrite length_app. lia.
    + rewrite Hb. cbn. by rewrite <- !app_assoc.
    + rewrite length_app. lia.
Qed.

Lemma decode_fields_round_trip fields vs bytes pre suf c :
  Forall (λ f, round_trips f.2) fields →
  valid_fields valid fields vs = true →
  bytes = pre ++ encode_fields encode fields vs ++ suf →
  c = length pre →
  decode_fields (λ t c, decode bytes c t) fields c
  = Ok (vs, (c + length (encode_fields encode fields vs))%nat).
Proof.
  intros Hfields. revert vs pre c.
  induction Hfields as [|[name t] fields Ht _ IH]; intros vs pre c Hok Hb Hc.
  - destruct vs; [|done]. cbn. do 2 f_equal. lia.
  - destruct vs as [|[name' v] vs]; [done|].
    cbn in Hok, Ht. apply andb_true_iff in Hok as [Hok Hvs].
    apply andb_true_iff in Hok as [Hname Hv].
    apply bool_decide_eq_true in Hname as <-.
    cbn [decode_fields encode_fields].
    rewrite (Ht v bytes pre (encode_fields encode fields vs ++ suf) c Hv)
      by (done || by rewrite Hb; cbn; rewrite <- app_assoc).
    cbn [bind].
    rewrite (IH vs (pre ++ encode v t)); [| done | |].
    + cbn [bind]. do 2 f_equal. rewrite length_app. lia.
    + rewrite Hb. cbn. by rewrite <- !app_assoc.
    + rewrite length_app. lia.
Qed.

Lemma decode_arm_round_trip arms default disc v bytes pre suf c :
  Forall (λ a, round_trips a.2) arms →
  from_option round_trips True default →
  with_arm (λ t, valid t v) false default disc arms = true →
  bytes = pre ++ with_arm (λ t, encode v t) [] default disc arms ++ suf →
  c = length pre →
  with_arm
    (λ t, let* '(v', c2) := decode bytes c t in Ok (VUnion disc v', c2))
    (Err UnknownUnionArm) default disc arms
  = Ok (VUnion disc v,
        (c + length (with_arm (λ t, encode v t) [] default disc arms))%nat).
Proof.
  intros Harms Hdefault.
  induction Harms as [|[d t] arms Ht _ IH]; cbn [with_arm]; intros Hok Hb Hc.
  - destruct default as [t|]; [|done].
    by rewrite (Hdefault v bytes pre suf c Hok Hb Hc).
  - cbn in Ht. destruct (d =? disc); [|by apply IH].
    by rewrite (Ht v bytes pre suf c Hok Hb Hc).
Qed.

Lemma round_trips_all ty : round_trips ty.
Proof.
  induction ty using type_descriptor_nested_ind;
    intros v bytes pre suf c Hok Hb Hc.
  - (* unsigned 32-bit *)
    destruct v; try done. cbn [encode decode valid] in *. apply in_range_true in Hok.
    rewrite (read_uint_app _ _ _ _ _ _ Hb Hc). cbn [bind].
    rewrite length_Z_to_be, Z.mod_small by (cbn; lia). done.
  - (* signed 32-bit *)
    destruct v; try done. cbn [encode decode valid] in *. apply in_range_true in Hok.
    rewrite (read_int_app 4 n bytes pre suf c) by (done || cbn; lia).
    cbn [bind]. by rewrite length_Z_to_be.
  - (* unsigned 64-bit *)
    destruct v; try done. cbn [encode decode valid] in *. apply in_range_true in Hok.
    rewrite (read_uint_app _ _ _ _ _ _ Hb Hc). cbn [bind].
    rewrite length_Z_to_be, Z.mod_small by (cbn; lia). done.
  - (* signed 64-bit *)
    destruct v; try done. cbn [encode decode valid] in *. apply in_range_true in Hok.
    rewrite (read_int_app 8 n bytes pre suf c) by (done || cbn; lia).
    cbn [bind]. by rewrite length_Z_to_be.
  - (* boolean *)
    destruct v; try done. cbn [encode decode] in *.
    rewrite (read_uint_app _ _ _ _ _ _ Hb Hc). cbn [bind].
    rewrite length_Z_to_be. by destruct b.
  - (* opaque of fixed length *)
    destruct v; try done. cbn [encode decode valid] in *.
    apply bool_decide_eq_true in Hok as <-.
    by rewrite (read_padded_app bytes pre data suf c).
  - (* opaque of variable length *)
    destruct v; try done. cbn [encode decode valid] in *.
    apply andb_true_iff in Hok as [Hmax Hlen]. apply in_range_true in Hlen.
    rewrite (read_uint_app 4 (Z.of_nat (length data)) bytes pre
               ((data ++ padding (length data)) ++ suf) c)
      by (done || by rewrite Hb, <- !app_assoc).
    cbn [bind]. rewrite Z.mod_small by (cbn; lia).
    destruct (Z.ltb_spec max (Z.of_nat (length data))); [lia|].
    rewrite Nat2Z.id.
    rewrite (read_padded_app bytes (pre ++ Z_to_be 4 (Z.of_nat (length data)))
               data suf).
    + cbn [bind]. do 2 f_equal. rewrite !length_app, length_Z_to_be. lia.
    + by rewrite Hb, <- !app_assoc.
    + rewrite length_app, length_Z_to_be. lia.
  - (* array of fixed length *)
    destruct v; try done. cbn [encode decode valid] in *.
    apply andb_true_iff in Hok as [Hn Hok].
    apply bool_decide_eq_true in Hn as <-.
    by rewrite (decode_items_round_trip ty items bytes pre suf c).
  - (* array of variable length *)
    destruct v; try done. cbn [encode decode valid] in *.
    apply andb_true_iff in Hok as [Hok Hitems].
    apply andb_true_iff in Hok as [Hmax Hlen]. apply in_range_true in Hlen.
    rewrite (read_uint_app 4 (Z.of_nat (length items)) bytes pre
               (flat_map (λ v, encode v ty) items ++ suf) c)
      by (done || by rewrite Hb, <- !app_assoc).
    cbn [bind]. rewrite Z.mod_small by (cbn; lia).
    destruct (Z.ltb_spec max (Z.of_nat (length items))); [lia|].
    rewrite Nat2Z.id.
    rewrite (decode_items_round_trip ty items bytes
               (pre ++ Z_to_be 4 (Z.of_nat (length items))) suf); try done.
    + cbn [bind]. do 2 f_equal. rewrite !length_app, length_Z_to_be. lia.
    + by rewrite Hb, <- !app_assoc.
    + rewrite length_app, length_Z_to_be. lia.
  - (* record *)
    destruct v as [| | | |vs| |]; try done. cbn [encode decode valid] in *.
    by rewrite (decode_fields_round_trip fields vs bytes pre suf c).
  - (* union *)
    destruct v as [| | | | |disc v|]; try done.
    cbn [encode decode valid] in *.
    apply andb_true_iff in Hok as [Hdisc Hok]. apply in_range_true in Hdisc.
    rewrite (read_int_app 4 disc bytes pre
               (with_arm (λ t, encode v t) [] default disc arms ++ suf) c)
      by (done || cbn; lia || by rewrite Hb, <- !app_assoc).
    cbn [bind].
    rewrite (decode_arm_round_trip arms default disc v bytes
               (pre ++ Z_to_be 4 disc) suf); try done.
    + do 2 f_equal. rewrite !length_app, length_Z_to_be. lia.
    + by rewrite Hb, <- !app_assoc.
    + rewrite length_app, length_Z_to_be. lia.
  - (* optional *)
    destruct v as [| | | | | |[v|]]; try done; cbn [encode decode valid] in *.
    + rewrite (read_uint_app 4 1 bytes pre (encode v ty ++ suf) c)
        by (done || by rewrite Hb, <- !app_assoc).
      cbn [bind]. change (1 mod 256 ^ Z.of_nat 4 =? 0) with false. cbn match.
      rewrite (IHty v bytes (pre ++ Z_to_be 4 1) suf); try done.
      * cbn [bind]. do 2 f_equal. rewrite !length_app, length_Z_to_be. lia.
      * by rewrite Hb, <- !app_assoc.
      * rewrite length_app, length_Z_to_be. lia.
    + rewrite (read_uint_app 4 0 bytes pre suf c) by done.
      cbn [bind]. change (0 mod 256 ^ Z.of_nat 4 =? 0) with true. cbn match.
      by rewrite length_Z_to_be.
Qed.

(** C7. For every type descriptor and every valid value of its type,
    decoding the encoding of the value yields the value, with the cursor at
    the end of the encoding. *)
Theorem decode_encode_round_trip (ty : type_descriptor) (v : value) :
  valid ty v = true →
  decode (encode v ty) 0 ty = Ok (v, length (encode v ty)).
Proof.
  intros Hok.
  apply (round_trips_all ty v (encode v ty) [] [] 0%nat Hok); [|done].
  by rewrite app_nil_r.
Qed.

Lemma decode_encode_round_trip_witness :
  valid sample_descriptor sample_value = true ∧
  decode (encode sample_value sample_descriptor) 0 sample_descriptor
  = Ok (sample_value, length (encode sample_value sample_descriptor)).
Proof.
  split.
  - vm_compute. reflexivity.
  - apply (decode_encode_round_trip sample_descriptor sample_value).
    vm_compute. reflexivity.
Defined.

Lemma read_bytes_error bytes c n e :
  read_bytes bytes c n = Err e → e = TruncatedData.
Proof. unfold read_bytes. case_decide; congruence. Qed.

Lemma read_padded_error bytes c n e :
  read_padded bytes c n = Err e → e = TruncatedData ∨ e = MalformedEncoding.
Proof.
  unfold read_padded.
  destruct (read_bytes bytes c n) as [[data c1]|e1] eqn:H1; cbn [bind].
  - destruct (read_bytes bytes c1 (pad_len n)) as [[pad c2]|e2] eqn:H2;
      cbn [bind].
    + destruct (forallb is_zero pad); [done|]. intros [= <-]. by right.
    + intros [= <-]. left. by apply read_bytes_error in H2.
  - intros [= <-]. left. by apply read_bytes_error in H1.
Qed.

(** C3. An NLM opaque field whose declared length is greater than 1024,
    the value of MAXNETOBJ_SZ, fails to decode with [LengthExceeded]; with
    a declared length of at most 1024 the decode does not fail with
    [LengthExceeded]. *)
Theorem netobj_length_limit (bytes : list byte) (cursor c1 : nat) (len : Z) :
  read_uint 4 bytes cursor = Ok (len, c1) →
  nlm4_const.MAXNETOBJ_SZ = 1024 ∧
  (1024 < len → decode bytes cursor nlm.netobj = Err LengthExceeded) ∧
  (len ≤ 1024 →
   decode bytes cursor nlm.netobj ≠ Err LengthExceeded ∧
   decode bytes cursor nlm.netobj
   = let* '(data, c2) := read_padded bytes c1 (Z.to_nat len) in
     Ok (VOpaque data, c2)).
Proof.
  intros Hlen. split; [done|].
  unfold nlm.netobj, nlm4_const.MAXNETOBJ_SZ. cbn [decode].
  rewrite Hlen. cbn [bind]. split; intros Hcmp.
  - by destruct (Z.ltb_spec 1024 len); [|lia].
  - destruct (Z.ltb_spec 1024 len); [lia|]. split; [|done].
    destruct (read_padded bytes c1 (Z.to_nat len)) as [[data c2]|e] eqn:Hp;
      cbn [bind]; [done|].
    apply read_padded_error in Hp as [-> | ->]; done.
Qed.

Lemma netobj_length_limit_witness :
  decode [x00; x00; x04; x01] 0 nlm.netobj = Err LengthExceeded ∧
  decode [x00; x00; x00; x02; x61; x62; x00; x00] 0 nlm.netobj
  ≠ Err LengthExceeded.
Proof.
  split.
  - apply (proj1 (proj2 (netobj_length_limit
                           [x00; x00; x04; x01] 0 4 1025 eq_refl))).
    lia.
  - apply (proj2 (proj2 (netobj_length_limit
                           [x00; x00; x00; x02; x61; x62; x00; x00]
                           0 4 2 eq_refl))).
    lia.
Defined.

(** C4. In an enumerated field that is not fixed for all versions, a raw
    code absent from the field's constant table decodes to a value that
    keeps the raw code under the label "UNKNOWN(n)"; the decode does not
    fail.  The codes 16 to 19 of [nlm_proc4] are such codes. *)
Theorem enum_tolerance (f : decoder.enum_field) (bytes : list byte)
    (cursor c : nat) (n : Z) :
  decoder.fixed_for_all_versions f = false →
  read_int 4 bytes cursor = Ok (n, c) →
  table_of (decoder.table f) !! n = None →
  decoder.decode_enum bytes cursor f
  = Ok ({| decoder.raw := n;
           decoder.label := "UNKNOWN(" +:+ pretty n +:+ ")" |}, c).
Proof.
  intros Hfixed Hread Habsent. unfold decoder.decode_enum.
  rewrite Hread. cbn [bind]. unfold decoder.resolve_enum.
  unfold constant_tables.lookup. rewrite Habsent, Hfixed. done.
Qed.

Lemma enum_tolerance_witness :
  decoder.decode_enum [x00; x00; x00; x10] 0
    {| decoder.table := T_nlm_proc4;
       decoder.fixed_for_all_versions := false |}
  = Ok ({| decoder.raw := 16; decoder.label := "UNKNOWN(16)" |}, 4%nat).
Proof.
  apply (enum_tolerance
           {| decoder.table := T_nlm_proc4;
              decoder.fixed_for_all_versions := false |}
           [x00; x00; x00; x10] 0 4 16).
  - reflexivity.
  - vm_compute. reflexivity.
  - vm_compute. reflexivity.
Defined.

Lemma read_uint_inv w bytes cursor n c :
  read_uint w bytes cursor = Ok (n, c) →
  (cursor + w ≤ length bytes)%nat ∧ c = (cursor + w)%nat.
Proof.
  unfold read_uint, read_bytes. case_decide; cbn [bind]; [|done].
  intros [= _ <-]. done.
Qed.

Lemma read_int_inv w bytes cursor n c :
  read_int w bytes cursor = Ok (n, c) →
  (cursor + w ≤ length bytes)%nat ∧ c = (cursor + w)%nat.
Proof.
  unfold read_int.
  destruct (read_uint w bytes cursor) as [[u c']|e] eqn:Hu; cbn [bind];
    [|done].
  intros [= _ <-]. by apply read_uint_inv in Hu.
Qed.

Lemma read_uint_in_bounds w bytes cursor :
  (cursor + w ≤ length bytes)%nat →
  read_uint w bytes cursor
  = Ok (be_to_Z (take w (drop cursor bytes)), (cursor + w)%nat).
Proof.
  intros Hlen. unfold read_uint, read_bytes. by rewrite decide_True.
Qed.

(** A header whose proc is RDMA_MSGP or RDMA_DONE is rejected by the
    reassembler, whatever its chunk lists and payload are. *)
Lemma reassemble_msgp_done_rejected (hdr : rpcordma.rdma_header)
    (payload : list byte) :
  rpcordma.proc hdr = rpcordma_const.RDMA_MSGP
  ∨ rpcordma.proc hdr = rpcordma_const.RDMA_DONE →
  rpcordma.reassemble hdr payload = Err ProtocolViolation.
Proof.
  intros Hproc. unfold rpcordma.reassemble, decoder.resolve_enum.
  by destruct Hproc as [-> | ->].
Qed.

(** C2. An RPCoRDMA message whose proc field, the 32-bit integer at byte
    offset 12, is RDMA_MSGP (2) or RDMA_DONE (3) fails to decode with
    [ProtocolViolation], whatever bytes follow the proc field, and also
    when nothing follows it: the chunk lists and the payload are not
    read.  The reassembler rejects a decoded header with such a proc in
    the same way. *)
Theorem rdma_msgp_done_rejected (bytes : list byte) (p : Z) (c : nat) :
  read_int 4 bytes 12 = Ok (p, c) →
  p = rpcordma_const.RDMA_MSGP ∨ p = rpcordma_const.RDMA_DONE →
  rpcordma_const.RDMA_MSGP = 2 ∧ rpcordma_const.RDMA_DONE = 3 ∧
  rpcordma.decode_message bytes = Err ProtocolViolation ∧
  ∀ hdr payload,
    rpcordma.proc hdr = p →
    rpcordma.reassemble hdr payload = Err ProtocolViolation.
Proof.
  intros Hread Hproc. split; [done|split; [done|split]].
  - pose proof (read_int_inv _ _ _ _ _ Hread) as [Hlen _].
    unfold rpcordma.decode_message.
    rewrite (read_uint_in_bounds 4 bytes 0) by lia. cbn [bind].
    rewrite (read_uint_in_bounds 4 bytes (0 + 4)) by (cbn; lia). cbn [bind].
    rewrite (read_uint_in_bounds 4 bytes (0 + 4 + 4)) by (cbn; lia).
    cbn [bind]. unfold decoder.decode_enum.
    change (0 + 4 + 4 + 4)%nat with 12%nat. rewrite Hread. cbn [bind].
    unfold decoder.resolve_enum. by destruct Hproc as [-> | ->].
  - intros hdr payload Hhdr. apply reassemble_msgp_done_rejected.
    by rewrite Hhdr.
Qed.

Lemma rdma_msgp_done_rejected_witness :
  rpcordma.decode_message
    [ x00; x00; x00; x07;  x00; x00; x00; x01;
      x00; x00; x00; x20;  x00; x00; x00; x03 ]
  = Err ProtocolViolation
  ∧ rpcordma.decode_message
      [ x00; x00; x00; x07;  x00; x00; x00; x01;
        x00; x00; x00; x20;  x00; x00; x00; x02;
        x00; x00; x00; x63 ]
    = Err ProtocolViolation.
Proof.
  split.
  - apply (rdma_msgp_done_rejected
             [ x00; x00; x00; x07;  x00; x00; x00; x01;
               x00; x00; x00; x20;  x00; x00; x00; x03 ]
             3 16 eq_refl).
    right. reflexivity.
  - apply (rdma_msgp_done_rejected
             [ x00; x00; x00; x07;  x00; x00; x00; x01;
               x00; x00; x00; x20;  x00; x00; x00; x02;
               x00; x00; x00; x63 ]
             2 16 eq_refl).
    left. reflexivity.
Defined.

(** * Properties of the module namespaces *)

Section exec_module.

Implicit Types (body : list (string * pyval)) (name : string) (v : pyval).

Lemma exec_module_snoc body name v :
  exec_module (body ++ [(name, v)]) = <[name := v]> (exec_module body).
Proof. unfold exec_module. by rewrite foldl_snoc. Qed.

Lemma exec_module_lookup_is_Some body name :
  is_Some (exec_module body !! name) ↔ name ∈ body.*1.
Proof.
  induction body as [|[name' v'] body IH] using rev_ind.
  - cbn. rewrite lookup_empty, elem_of_nil. split; [by intros [? ?]|done].
  - rewrite exec_module_snoc, fmap_app, elem_of_app, lookup_insert_is_Some.
    cbn. rewrite list_elem_of_singleton, IH.
    destruct (decide (name' = name)); intuition congruence.
Qed.

Lemma exec_module_lookup_Some body name v :
  NoDup body.*1 →
  exec_module body !! name = Some v ↔ (name, v) ∈ body.
Proof.
  induction body as [|[name' v'] body IH] using rev_ind; intros Hnd.
  - cbn. rewrite lookup_empty, elem_of_nil. done.
  - rewrite fmap_app in Hnd. apply NoDup_app in Hnd as (Hnd & Hfresh & _).
    rewrite exec_module_snoc, lookup_insert_Some, elem_of_app,
      list_elem_of_singleton, (IH Hnd).
    split.
    + intros [[-> ->] | [_ Hin]]; auto.
    + intros [Hin | [= -> ->]]; [right | by left].
      split; [|done]. intros ->. apply (Hfresh name).
      * apply list_elem_of_fmap. by exists (name, v).
      * cbn. by apply list_elem_of_singleton.
Qed.

End exec_module.

(** No module assigns a name twice. *)
Lemma module_body_names_NoDup m email : NoDup (module_body m email).*1.
Proof. destruct m; apply (bool_decide_unpack _); vm_compute; exact I. Qed.

(** X1. Every name a module binds keeps the value of its one assignment:
    at the end of the module body, the namespace maps the name to that
    value, for any author address. *)
Theorem module_binding_visible (m : module_id) (email name : string)
    (v : pyval) :
  (name, v) ∈ module_body m email →
  module_globals m email !! name = Some v.
Proof.
  intros Hin. unfold module_globals.
  by apply exec_module_lookup_Some; [apply module_body_names_NoDup|].
Qed.

Lemma module_binding_visible_witness :
  module_globals M_nlm4_const "mora@netapp.com" !! "MAXNAMELEN"
  = Some (PInt 1025).
Proof.
  apply (module_binding_visible M_nlm4_const "mora@netapp.com"
           "MAXNAMELEN" (PInt 1025)).
  apply (list_elem_of_lookup_2 _ 10%nat). reflexivity.
Defined.

Lemma enum_section_in_module t email :
  enum_section t ⊆ module_body (module_of t) email.
Proof.
  intros b Hb. destruct t; cbn [module_of module_body];
    rewrite !elem_of_app; tauto.
Qed.

(** X2. Reading a table's name off its module gives the table, and
    reading the symbolic name a table records for a code gives that code
    back as an integer: [getattr(module, table[k]) == k]. *)
Theorem table_name_resolves_to_code (t : table_id) (email : string) :
  module_globals (module_of t) email !! table_name t
  = Some (PDict (table_of t)) ∧
  ∀ k name,
    table_of t !! k = Some name →
    module_globals (module_of t) email !! name = Some (PInt k).
Proof.
  split.
  - apply module_binding_visible, enum_section_in_module.
    unfold enum_section. rewrite elem_of_app, list_elem_of_singleton. by right.
  - intros k name Hk.
    apply module_binding_visible, enum_section_in_module.
    unfold enum_section. rewrite elem_of_app. left.
    apply list_elem_of_fmap. exists (name, k). split; [done|].
    by apply elem_of_table_consts, table_of_lookup_Some.
Qed.

Lemma table_name_resolves_to_code_witness :
  module_globals M_rpcordma_const "mora@netapp.com" !! "RDMA_ERROR"
  = Some (PInt 4).
Proof.
  apply (proj2 (table_name_resolves_to_code T_rdma_proc "mora@netapp.com")
           4 "RDMA_ERROR").
  vm_compute. reflexivity.
Defined.

Lemma NoDup_fmap_inj_on {A B} (f : A → B) (l : list A) x y :
  NoDup (f <$> l) → x ∈ l → y ∈ l → f x = f y → x = y.
Proof.
  induction l as [|a l IH]; cbn; intros Hnd Hx Hy Hxy.
  - by apply elem_of_nil in Hx.
  - apply NoDup_cons in Hnd as [Ha Hnd].
    apply elem_of_cons in Hx as [-> | Hx];
      apply elem_of_cons in Hy as [-> | Hy]; auto.
    + exfalso. apply Ha. rewrite Hxy. by apply list_elem_of_fmap_2.
    + exfalso. apply Ha. rewrite <- Hxy. by apply list_elem_of_fmap_2.
Qed.

Lemma elem_of_all_entries t k name :
  (t, (k, name)) ∈ all_entries ↔ (k, name) ∈ table_items t.
Proof.
  unfold all_entries. rewrite list_elem_of_bind. split.
  - intros (t' & Hin & _). apply list_elem_of_fmap in Hin as (kv & [= -> ->] & Hkv).
    done.
  - intros Hin. exists t. split.
    + apply list_elem_of_fmap. by exists (k, name).
    + destruct t; repeat constructor.
Qed.

Lemma all_entries_names_NoDup : NoDup ((λ e, e.2.2) <$> all_entries).
Proof. apply (bool_decide_unpack _). vm_compute. exact I. Qed.

(** X3. A symbolic name occurs in one table only, under one code: no name
    is shared by two tables, of the same module or not. *)
Theorem names_unique_across_tables (t1 t2 : table_id) (k1 k2 : Z)
    (name : string) :
  table_of t1 !! k1 = Some name →
  table_of t2 !! k2 = Some name →
  t1 = t2 ∧ k1 = k2.
Proof.
  rewrite !table_of_lookup_Some, <- !elem_of_all_entries. intros H1 H2.
  assert (Heq : (t1, (k1, name)) = (t2, (k2, name))).
  { by apply (NoDup_fmap_inj_on (λ e : table_id * (Z * string), e.2.2)
                all_entries); [apply all_entries_names_NoDup|..]. }
  by injection Heq.
Qed.

Lemma names_unique_across_tables_witness :
  T_nlm4_stats = T_nlm4_stats ∧ nlm4_const.NLM4_GRANTED = 0.
Proof.
  apply (names_unique_across_tables T_nlm4_stats T_nlm4_stats
           nlm4_const.NLM4_GRANTED 0 "NLM4_GRANTED");
    vm_compute; reflexivity.
Defined.

(** * Further properties of the code-to-name tables *)

Lemma dict_display_list_to_map items :
  dict_display items = list_to_map (reverse items).
Proof.
  induction items as [|[k v] items IH] using rev_ind; [done|].
  by rewrite dict_display_snoc, reverse_snoc, IH.
Qed.

(** The dictionary has one entry for each item of the display. *)
Lemma table_of_size t : size (table_of t) = length (table_items t).
Proof.
  rewrite table_of_display, dict_display_list_to_map.
  rewrite map_size_list_to_map, length_reverse; [done|].
  rewrite fmap_reverse, reverse_Permutation. apply table_items_keys_NoDup.
Qed.

Lemma table_of_is_Some t k :
  is_Some (table_of t !! k) ↔ k ∈ (table_items t).*1.
Proof.
  rewrite <- not_eq_None_Some, table_of_lookup_None.
  destruct (decide (k ∈ (table_items t).*1)); tauto.
Qed.

(** X4. Apart from [nlm_proc4], the codes of a table are consecutive: a
    code is a key exactly when it lies between the first code of the table
    and the first code plus the number of entries. *)
Theorem table_codes_consecutive (t : table_id) (k : Z) :
  t ≠ T_nlm_proc4 →
  is_Some (table_of t !! k)
  ↔ first_code t ≤ k < first_code t + Z.of_nat (size (table_of t)).
Proof.
  intros Ht. rewrite table_of_size, table_of_is_Some.
  assert (Hkeys : (table_items t).*1
                  = seqZ (first_code t) (Z.of_nat (length (table_items t))))
    by (by destruct t).
  rewrite Hkeys at 1. rewrite elem_of_seqZ. lia.
Qed.

Lemma table_codes_consecutive_witness :
  is_Some (nlm4_const.nlm4_stats !! 7) ∧
  ¬ is_Some (rpcordma_const.rpc_rdma_errcode !! 0).
Proof.
  split.
  - apply (table_codes_consecutive T_nlm4_stats 7); [discriminate|].
    vm_compute. split; [discriminate|reflexivity].
  - intros H0.
    apply (table_codes_consecutive T_rpc_rdma_errcode 0) in H0;
      [|discriminate].
    vm_compute in H0. destruct H0 as [H0 _]. by apply H0.
Defined.

Lemma all_entries_bounded :
  Forall (λ e : table_id * (Z * string), 0 ≤ e.2.1 ≤ 23) all_entries.
Proof. apply (bool_decide_unpack _). vm_compute. exact I. Qed.

(** X5. Every code of every table lies between 0 and 23; no table has a
    negative code, and every code fits a signed 32-bit integer. *)
Theorem table_codes_bounded (t : table_id) (k : Z) (name : string) :
  table_of t !! k = Some name →
  0 ≤ k ≤ 23 ∧ - 2 ^ 31 ≤ k < 2 ^ 31.
Proof.
  rewrite table_of_lookup_Some, <- elem_of_all_entries. intros Hin.
  pose proof (proj1 (Forall_forall _ _) all_entries_bounded _ Hin) as Hk.
  cbn in Hk. lia.
Qed.

Lemma table_codes_bounded_witness :
  0 ≤ nlm4_const.NLMPROC4_FREE_ALL ≤ 23.
Proof.
  apply (table_codes_bounded T_nlm_proc4 nlm4_const.NLMPROC4_FREE_ALL
           "NLMPROC4_FREE_ALL").
  vm_compute. reflexivity.
Defined.

(** X6. In [nlm_proc4] the procedures 1 to 5 each have a message variant
    five codes higher and a result variant ten codes higher, named after
    the procedure with the suffix "_MSG" and "_RES". *)
Theorem nlm_proc4_msg_res (k : Z) (name : string) :
  1 ≤ k ≤ 5 →
  nlm4_const.nlm_proc4 !! k = Some name →
  nlm4_const.nlm_proc4 !! (k + 5) = Some (name +:+ "_MSG") ∧
  nlm4_const.nlm_proc4 !! (k + 10) = Some (name +:+ "_RES").
Proof.
  intros Hk Hname.
  assert (Hcases : k ∈ seqZ 1 5) by (rewrite elem_of_seqZ; lia).
  vm_compute in Hcases.
  repeat (apply elem_of_cons in Hcases as [-> | Hcases];
          [vm_compute in Hname; injection Hname as <-;
           split; vm_compute; reflexivity|]).
  by apply elem_of_nil in Hcases.
Qed.

Lemma nlm_proc4_msg_res_witness :
  nlm4_const.nlm_proc4 !! 7 = Some "NLMPROC4_LOCK_MSG" ∧
  nlm4_const.nlm_proc4 !! 12 = Some "NLMPROC4_LOCK_RES".
Proof.
  apply (nlm_proc4_msg_res 2 "NLMPROC4_LOCK"); [lia|].
  vm_compute. reflexivity.
Defined.

Lemma StronglySorted_lookup_lt (l : list Z) i j x y :
  StronglySorted Z.lt l → (i < j)%nat →
  l !! i = Some x → l !! j = Some y → x < y.
Proof.
  intros Hl. revert i j. induction Hl as [|a l Hl IH Ha]; intros i j Hij Hi Hj.
  - done.
  - destruct j as [|j]; [lia|]. cbn in Hj. destruct i as [|i].
    + cbn in Hi. injection Hi as ->.
      rewrite Forall_forall in Ha. apply Ha.
      apply list_elem_of_lookup. by exists j.
    + cbn in Hi. apply (IH i j); [lia|done..].
Qed.

Lemma table_items_sorted t : StronglySorted Z.lt (table_items t).*1.
Proof. destruct t; apply (bool_decide_unpack _); vm_compute; exact I. Qed.

(** X7. Every display lists its entries by strictly increasing code: of
    two entries, the one written first has the smaller code. *)
Theorem table_display_increasing (t : table_id) (i j : nat) (ki kj : Z) :
  (i < j)%nat →
  (table_items t).*1 !! i = Some ki →
  (table_items t).*1 !! j = Some kj →
  ki < kj.
Proof. apply StronglySorted_lookup_lt, table_items_sorted. Qed.

Lemma table_display_increasing_witness : 15 < 20.
Proof.
  apply (table_display_increasing T_nlm_proc4 15 16 15 20);
    [lia | reflexivity | reflexivity].
Defined.

(** X8. The share codes are bit flags.  In [fsh4_access] the read bit
    [fsa_R] is set in exactly the codes named fsa_R and fsa_RW and the
    write bit [fsa_W] in exactly fsa_W and fsa_RW; in [fsh4_mode] the
    deny-read bit [fsm_DR] is set in exactly fsm_DR and fsm_DRW and the
    deny-write bit [fsm_DW] in exactly fsm_DW and fsm_DRW. *)
Theorem share_codes_are_bit_flags (k : Z) (name : string) :
  (nlm4_const.fsh4_access !! k = Some name →
   (Z.land k nlm4_const.fsa_R ≠ 0 ↔ name = "fsa_R" ∨ name = "fsa_RW") ∧
   (Z.land k nlm4_const.fsa_W ≠ 0 ↔ name = "fsa_W" ∨ name = "fsa_RW")) ∧
  (nlm4_const.fsh4_mode !! k = Some name →
   (Z.land k nlm4_const.fsm_DR ≠ 0 ↔ name = "fsm_DR" ∨ name = "fsm_DRW") ∧
   (Z.land k nlm4_const.fsm_DW ≠ 0 ↔ name = "fsm_DW" ∨ name = "fsm_DRW")).
Proof.
  split; intros Hk.
  - apply (table_of_lookup_Some T_fsh4_access) in Hk.
    cbn in Hk. unfold nlm4_const.fsh4_access_items in Hk.
    repeat (apply elem_of_cons in Hk as [[= -> ->] | Hk];
            [vm_compute; intuition congruence|]).
    by apply elem_of_nil in Hk.
  - apply (table_of_lookup_Some T_fsh4_mode) in Hk.
    cbn in Hk. unfold nlm4_const.fsh4_mode_items in Hk.
    repeat (apply elem_of_cons in Hk as [[= -> ->] | Hk];
            [vm_compute; intuition congruence|]).
    by apply elem_of_nil in Hk.
Qed.

Lemma share_codes_are_bit_flags_witness :
  Z.land nlm4_const.fsa_RW nlm4_const.fsa_W ≠ 0 ∧
  ¬ Z.land nlm4_const.fsm_DR nlm4_const.fsm_DW ≠ 0.
Proof.
  split.
  - apply (proj2 (proj1 (share_codes_are_bit_flags 3 "fsa_RW") eq_refl)).
    by right.
  - intros Hset.
    apply (proj2 (proj2 (share_codes_are_bit_flags 1 "fsm_DR") eq_refl))
      in Hset.
    destruct Hset as [Hset | Hset]; discriminate Hset.
Defined.

Lemma module_globals_is_Some m email name :
  is_Some (module_globals m email !! name) ↔ name ∈ (module_body m email).*1.
Proof. apply exec_module_lookup_is_Some. Qed.

Lemma module_names_shared email1 email2 :
  list_intersection (module_body M_rpcordma_const email1).*1
                    (module_body M_nlm4_const email2).*1
  = shared_names.
Proof. vm_compute. reflexivity. Qed.

(** X9. The names bound by statements of both modules are exactly the
    docstring name [__doc__], the import alias [c] and the four module
    constants: no enum constant, size or table name is bound by a
    statement of both modules. *)
Theorem modules_share_only_metadata (email1 email2 name : string) :
  name ∈ (module_body M_rpcordma_const email1).*1
  ∧ name ∈ (module_body M_nlm4_const email2).*1
  ↔ name ∈ shared_names.
Proof.
  rewrite <- (module_names_shared email1 email2).
  by rewrite list_elem_of_intersection.
Qed.
